(** * A resource graph with deferred outputs: the provisioning script
      [pulumi.py] and the graph builder it is written against.

    The script declares ten Azure resources whose properties refer to
    outputs of resources declared before them, and exports four values,
    two of them secret.  Ordering, resolution and secrecy are the work of
    the engine behind [import pulumi]; that engine is not part of the
    repository, so the component it stands for (the "Resource Graph
    Builder" of the specification) is modelled here, and the script is
    transcribed on top of it. *)

From stdpp Require Import base list strings gmap.

Open Scope string_scope.
Open Scope list_scope.
Set Warnings "-register-all,-clear-no-such-hyp".

(** ** Errors and the error monad *)

(** Modelled from the spec: the taxonomy of section 7.  Two errors come
    from outside it: [ApplyError], a function under [apply] raising, and
    [ConfigMissingError], what [pulumi.Config.require] raises. *)
Inductive error :=
  | DuplicateNameError (name : string)
  | UnknownTypeError (type : string)
  | CycleError (names : list string)
  | UnresolvedReferenceError (res prop : string)
  | ExecutorError (res msg : string)
  | ApplyError
  | ConfigMissingError (key : string).

Inductive result (A : Type) :=
  | Ok (a : A)
  | Err (e : error).
Arguments Ok {A} a.
Arguments Err {A} e.

#[global] Instance result_ret : MRet result := λ A a, Ok a.
#[global] Instance result_bind : MBind result := λ A B f m,
  match m with Ok a => f a | Err e => Err e end.
#[global] Instance result_fmap : FMap result := λ A B f m,
  match m with Ok a => Ok (f a) | Err e => Err e end.

(** Keyword arguments and output mappings are association lists: the
    first binding of a key is the one that is read. *)
Fixpoint assoc {A : Type} (k : string) (l : list (string * A)) : option A :=
  match l with
  | [] => None
  | (k', a) :: l' => if bool_decide (k' = k) then Some a else assoc k l'
  end.

(** ** The resource graph builder *)

Module Builder.

(** Values that are fully known: what a literal property holds and what
    the executor returns. *)
Inductive rvalue :=
  | RStr (s : string)
  | RBool (b : bool)
  | RAsset (path : string)
  | RList (items : list rvalue)
  | RObj (fields : list (string * rvalue)).

(** Modelled from the spec: property values of section 3, "either a
    literal or a deferred reference to another resource's output
    property".  [VList] and [VObj] carry deferred values nested inside
    argument objects, and [VApply] is the "apply on future value" of
    section 9: a function run on its arguments once they are resolved;
    [None] is the function raising. *)
Inductive value :=
  | VLit (r : rvalue)
  | VRef (res prop : string)
  | VList (items : list value)
  | VObj (fields : list (string * value))
  | VApply (f : list rvalue → option rvalue) (args : list value).

Record resource := {
  res_name : string;
  res_type : string;
  res_props : list (string * value);
}.

Record output := {
  out_name : string;
  out_value : value;
  out_secret : bool;
}.

(** Modelled from the spec: the builder's registry.  [provider] is the
    table of types the target provider supports; resources and outputs
    are kept in declaration order. *)
Record builder := {
  provider : list string;
  resources : list resource;
  outputs : list output;
}.

Definition new (types : list string) : builder :=
  {| provider := types; resources := []; outputs := [] |}.

(** Operations thread the builder and may fail. *)
Definition build (A : Type) : Type := builder → result (A * builder).

#[global] Instance build_ret : MRet build := λ A a st, Ok (a, st).
#[global] Instance build_bind : MBind build := λ A B f m st,
  match m st with Ok (a, st') => f a st' | Err e => Err e end.

Definition lift {A : Type} (m : result A) : build A := λ st,
  match m with Ok a => Ok (a, st) | Err e => Err e end.

Definition names (rs : list resource) : list string := res_name <$> rs.

(** A handle is the logical name of the resource it stands for. *)
Definition handle := string.

(** Modelled from the spec: [declare(name, type, properties)] of section
    4.1, failing on a reused name and on an unsupported type. *)
Definition declare (name type : string) (properties : list (string * value))
  : build handle := λ st,
  if bool_decide (name ∈ names (resources st)) then Err (DuplicateNameError name)
  else if bool_decide (type ∈ provider st) then
    Ok (name, {| provider := provider st;
                 resources := resources st ++
                   [{| res_name := name; res_type := type; res_props := properties |}];
                 outputs := outputs st |})
  else Err (UnknownTypeError type).

(** Modelled from the spec: [property_of(handle, property_name)]; it
    builds the placeholder and resolves nothing. *)
Definition property_of (h : handle) (property_name : string) : value :=
  VRef h property_name.

(** Modelled from the spec: [export(name, value, secret=false)].  A name
    exported again replaces the earlier record. *)
Definition export (name : string) (v : value) (secret : bool) : build unit := λ st,
  Ok ((), {| provider := provider st;
             resources := resources st;
             outputs := filter (λ o, out_name o ≠ name) (outputs st) ++
               [{| out_name := name; out_value := v; out_secret := secret |}] |}).

(** *** Edges *)

(** The deferred references inside a value, left to right. *)
Fixpoint refs (v : value) : list (string * string) :=
  match v with
  | VLit _ => []
  | VRef a x => [(a, x)]
  | VList items => flat_map refs items
  | VObj fields => flat_map (λ kv, refs kv.2) fields
  | VApply _ args => flat_map refs args
  end.

Definition prop_refs (ps : list (string * value)) : list (string * string) :=
  flat_map (λ kv, refs kv.2) ps.

(** The resources a resource references, with repetitions. *)
Definition deps (r : resource) : list string := (prop_refs (res_props r)).*1.

(** [a] references [b]: a resource named [a] holds a deferred value of
    the resource named [b]. *)
Definition edge (rs : list resource) (a b : string) : Prop :=
  ∃ r, r ∈ rs ∧ res_name r = a ∧ b ∈ deps r.

(** References lead from [a] through [via], in order, to [z]. *)
Fixpoint chain (rs : list resource) (a : string) (via : list string) (z : string)
  : Prop :=
  match via with
  | [] => edge rs a z
  | b :: via' => edge rs a b ∧ chain rs b via' z
  end.

(** [ns] is a reference cycle: each name references the next, and the
    last references the first. *)
Definition is_cycle (rs : list resource) (ns : list string) : Prop :=
  match ns with
  | [] => False
  | a :: via => chain rs a via a
  end.

Definition acyclic (rs : list resource) : Prop := ∀ ns, ¬ is_cycle rs ns.

(** Every deferred value names a declared resource. *)
Definition closed (rs : list resource) : Prop :=
  ∀ r a x, r ∈ rs → (a, x) ∈ prop_refs (res_props r) → a ∈ names rs.

(** All the references of [r] are placed. *)
Definition ready (placed : list string) (r : resource) : bool :=
  forallb (λ d, bool_decide (d ∈ placed)) (deps r).

(** Every resource of [plan] comes after the resources it references. *)
Definition ordered (plan : list resource) : Prop :=
  ∀ l1 r l2 d, plan = l1 ++ r :: l2 → d ∈ deps r → d ∈ names l1.

(** After [l1], [r] is the first resource in declaration order that is
    not placed yet and whose references are all placed. *)
Definition first_ready (rs l1 : list resource) (r : resource) : Prop :=
  ∃ u v, filter (λ x, res_name x ∉ names l1) rs = u ++ r :: v ∧
         Forall (λ x, ready (names l1) x = false) u ∧ ready (names l1) r = true.

(** *** The plan *)

(** Modelled from the spec: the stable tie-break of section 4.1.  The
    first pending resource, in declaration order, all of whose
    references are placed; with it, the pending list without it. *)
Fixpoint pick (placed : list string) (pending : list resource)
  : option (resource * list resource) :=
  match pending with
  | [] => None
  | r :: rest =>
      if ready placed r then Some (r, rest)
      else match pick placed rest with
           | Some (x, rest') => Some (x, r :: rest')
           | None => None
           end
  end.

Definition blocker (placed : list string) (r : resource) : option string :=
  find (λ d, negb (bool_decide (d ∈ placed))) (deps r).

Definition by_name (n : string) (rs : list resource) : option resource :=
  find (λ r, bool_decide (res_name r = n)) rs.

(** The names walked since [cur]: [path] holds the names walked so far,
    latest first. *)
Fixpoint since (cur : string) (path : list string) : list string :=
  match path with
  | [] => []
  | n :: path' => if bool_decide (n = cur) then [] else n :: since cur path'
  end.

(** The names from [cur] back to itself, in the order of the walk. *)
Definition close_cycle (cur : string) (path : list string) : list string :=
  cur :: reverse (since cur path).

(** Modelled from the spec: the names a [CycleError] carries.  From
    [cur], follow the first unplaced reference of each resource until a
    name comes back; the fuel bounds the walk by the number of pending
    resources, and the two empty answers stand for a walk that never
    ends so and a reference that leaves the pending resources. *)
Fixpoint walk (fuel : nat) (placed : list string) (pending : list resource)
    (path : list string) (cur : string) : list string :=
  if bool_decide (cur ∈ path) then close_cycle cur path
  else match fuel with
       | 0 => []
       | S fuel' =>
           match by_name cur pending ≫= blocker placed with
           | Some d => walk fuel' placed pending (cur :: path) d
           | None => []
           end
       end.

Definition find_cycle (placed : list string) (pending : list resource) : list string :=
  match pending with
  | [] => []
  | r :: _ => walk (length pending) placed pending [] (res_name r)
  end.

(** Each name of [path], latest first, references the one walked after
    it, and the latest references [cur]. *)
Fixpoint linked (rs : list resource) (path : list string) (cur : string) : Prop :=
  match path with
  | [] => True
  | n :: path' => edge rs n cur ∧ linked rs path' n
  end.

(** Modelled from the spec: the topological sort of section 4.1.  One
    resource is placed per round; [placed] is the plan so far. *)
Fixpoint sort_loop (rounds : nat) (placed pending : list resource)
  : result (list resource) :=
  match rounds with
  | 0 => Ok placed
  | S rounds' =>
      match pick (names placed) pending with
      | Some (r, rest) => sort_loop rounds' (placed ++ [r]) rest
      | None => Err (CycleError (find_cycle (names placed) pending))
      end
  end.

(** The first reference, in declaration order, to a name that no
    resource carries. *)
Definition dangling (rs : list resource) : option (string * string) :=
  find (λ ref, negb (bool_decide (ref.1 ∈ names rs)))
       (flat_map (λ r, prop_refs (res_props r)) rs).

(** Modelled from the spec: [build_plan()] of section 4.1, a topological
    sort of the declared resources along their deferred references,
    ties broken by declaration order; a reference to an undeclared
    resource is [UnresolvedReferenceError], a cycle is [CycleError] with
    the names on it. *)
Definition plan_of (rs : list resource) : result (list resource) :=
  match dangling rs with
  | Some (a, x) => Err (UnresolvedReferenceError a x)
  | None => sort_loop (length rs) [] rs
  end.

(** Modelled from the spec: [build_plan() -> ExecutionPlan], on the
    resources of the builder. *)
Definition build_plan (st : builder) : result (list resource) :=
  plan_of (resources st).

(** *** Resolution *)

(** What the resources materialized so far have returned. *)
Definition store := list (string * list (string * rvalue)).

Definition lookup_output (s : store) (a x : string) : option rvalue :=
  assoc a s ≫= assoc x.

(** Modelled from the spec: the substitution of resolved values into
    deferred references (section 4.1).  A reference whose resource or
    property is not in the store is [UnresolvedReferenceError]. *)
Fixpoint subst (s : store) (v : value) : result rvalue :=
  match v with
  | VLit r => Ok r
  | VRef a x =>
      match lookup_output s a x with
      | Some r => Ok r
      | None => Err (UnresolvedReferenceError a x)
      end
  | VList items => RList <$> mapM (subst s) items
  | VObj fields => RObj <$> mapM (λ kv, pair kv.1 <$> subst s kv.2) fields
  | VApply f args =>
      args' ← mapM (subst s) args;
      match f args' with
      | Some r => Ok r
      | None => Err ApplyError
      end
  end.

Definition subst_props (s : store) (ps : list (string * value))
  : result (list (string * rvalue)) :=
  mapM (λ kv, pair kv.1 <$> subst s kv.2) ps.

Inductive outcome :=
  | Created (outs : list (string * rvalue))
  | Failed (msg : string).

(** One call of the executor: the resource, what it was given, what it
    answered. *)
Record call := {
  call_name : string;
  call_type : string;
  call_props : list (string * rvalue);
  call_outcome : outcome;
}.

(** Modelled from the spec: a resolved output; a secret one is returned
    wrapped and read through [unwrap] (section 4.1). *)
Inductive exported :=
  | Plain (v : rvalue)
  | Wrapped (v : rvalue).


(** Modelled from the spec: the non-secret view of a result (section
    8), the entries that are not wrapped. *)
Definition public_view (res : list (string * exported)) : list (string * rvalue) :=
  omap (λ ne, match ne.2 with Plain v => Some (ne.1, v) | Wrapped _ => None end) res.

Definition resolve_output (s : store) (o : output) : result (string * exported) :=
  v ← subst s (out_value o);
  mret (out_name o, if out_secret o then Wrapped v else Plain v).

Section Resolve.
(** The state of the world the executor acts on. *)
Context {W : Type}.

(** Modelled from the spec: the executor contract of section 6, given
    a type and a fully resolved property mapping. *)
Definition executor : Type :=
  string → list (string * rvalue) → W → outcome * W.

(** Modelled from the spec: the walk of section 5, one call of the
    executor per resource, strictly in plan order, ended by the first
    failure. *)
Fixpoint walk_plan (exec : executor) (plan : list resource) (s : store) (w : W)
  : list call * W * result store :=
  match plan with
  | [] => ([], w, Ok s)
  | r :: rest =>
      match subst_props s (res_props r) with
      | Err e => ([], w, Err e)
      | Ok ps =>
          let '(o, w') := exec (res_type r) ps w in
          let c := {| call_name := res_name r; call_type := res_type r;
                      call_props := ps; call_outcome := o |} in
          match o with
          | Failed msg => ([c], w', Err (ExecutorError (res_name r) msg))
          | Created outs =>
              let '(log, w'', res) :=
                walk_plan exec rest ((res_name r, outs) :: s) w' in
              (c :: log, w'', res)
          end
      end
  end.

(** Modelled from the spec: [resolve(plan, executor)] of section 4.1.
    Besides the mapping of outputs it returns the calls made to the
    executor, in order, and the world they left. *)
Definition resolve (st : builder) (plan : list resource) (exec : executor) (w : W)
  : list call * W * result (list (string * exported)) :=
  let '(log, w', r) := walk_plan exec plan [] w in
  (log, w', r ≫= λ s, mapM (resolve_output s) (outputs st)).
End Resolve.

(** The store after the calls of [l], on top of [s]. *)
Fixpoint record (l : list call) (s : store) : store :=
  match l with
  | [] => s
  | c :: l' =>
      match call_outcome c with
      | Created outs => record l' ((call_name c, outs) :: s)
      | Failed _ => record l' s
      end
  end.

Definition created (c : call) : Prop := ∃ outs, call_outcome c = Created outs.

(** What resolving the outputs yields, entry by entry. *)
Definition resolved_as (s : store) (o : output) (ne : string * exported) : Prop :=
  ∃ v, subst s (out_value o) = Ok v ∧
       ne = (out_name o, if out_secret o then Wrapped v else Plain v).

(** A property of a declared resource, and a member of an argument
    object. *)
Definition property (st : builder) (name prop : string) : option value :=
  by_name name (resources st) ≫= λ r, assoc prop (res_props r).

Definition member (k : string) (v : value) : option value :=
  match v with
  | VObj fields => assoc k fields
  | _ => None
  end.

End Builder.

(** ** Configuration *)

Module Config.

(** Modelled from the spec: the configuration input of section 6.  The
    [pulumi.Config] class is library code; its settings are a finite map
    from keys to strings, [get] answers [None] for an absent key and
    [require] raises instead. *)
Definition get (config : gmap string string) (key : string) : option string :=
  config !! key.

(** Modelled from the spec: "required plain values fail loudly if
    absent" (section 6), for [config.require]. *)
Definition require (config : gmap string string) (key : string) : result string :=
  match get config key with
  | Some v => Ok v
  | None => Err (ConfigMissingError key)
  end.

End Config.

(** Python's [x or d] on an optional string: [None] and the empty string
    are both false. *)
Definition py_or (x : option string) (d : string) : string :=
  match x with
  | None => d
  | Some v => if bool_decide (v = "") then d else v
  end.

(** [used] is what [config.get(key) or default] gives: the default for
    an absent key and for an empty value, the configured value
    otherwise. *)
Definition setting_or (config : gmap string string) (key default used : string)
  : Prop :=
  (config !! key = None → used = default) ∧
  (config !! key = Some "" → used = default) ∧
  (∀ v, config !! key = Some v → v ≠ "" → used = v).

(** ** Outputs of the engine *)

Module Output.
Import Builder.

(** Modelled from the spec: [pulumi.Output], a deferred value with the
    secrecy it carries ("apply on future value", section 9).  The class
    and the operations below are library code; [all] and [apply] keep
    the secrecy of their arguments, [secret] sets it, and [export] hands
    the value and its secrecy to the builder. *)
Record t := {
  val : value;
  is_secret : bool;
}.

(** A plain input lifted to an output. *)
Definition from_input (s : string) : t :=
  {| val := VLit (RStr s); is_secret := false |}.

(** [resource.attribute] *)
Definition attr (h : handle) (property_name : string) : t :=
  {| val := property_of h property_name; is_secret := false |}.

(** [Output.all(o1, ..., on)]: the list of the values, secret as soon
    as one of them is. *)
Definition all (os : list t) : t :=
  {| val := VList (val <$> os); is_secret := existsb is_secret os |}.

(** [o.apply(f)] *)
Definition apply (f : rvalue → option rvalue) (o : t) : t :=
  {| val := VApply (λ args, match args with [x] => f x | _ => None end) [val o];
     is_secret := is_secret o |}.

(** [Output.secret(o)] *)
Definition secret (o : t) : t :=
  {| val := val o; is_secret := true |}.

(** Attribute access and indexing on a resolved value.  A field the
    value does not carry and an index out of range count as the access
    raising. *)
Definition field (k : string) (v : rvalue) : option rvalue :=
  match v with
  | RObj fields => assoc k fields
  | _ => None
  end.

Definition item (i : nat) (v : rvalue) : option rvalue :=
  match v with
  | RList items => items !! i
  | _ => None
  end.

(** [o.attribute] on an output is the access lifted through [apply]. *)
Definition getattr (k : string) (o : t) : t := apply (field k) o.

(** [config.require_secret(key)] *)
Definition require_secret (config : gmap string string) (key : string) : result t :=
  secret ∘ from_input <$> Config.require config key.

(** [pulumi.export(name, o)] *)
Definition export (name : string) (o : t) : build unit :=
  Builder.export name (val o) (is_secret o).

End Output.

(** ** The script *)

Module Script.
Import Builder.

(** Modelled from the spec: the resource classes of [pulumi_azure_native]
    that the script instantiates, as the provider's table of types. *)
Definition azure_native : list string :=
  [ "resources.ResourceGroup"; "storage.StorageAccount";
    "storage.StorageAccountStaticWebsite"; "storage.Blob";
    "network.VirtualNetwork"; "network.Subnet"; "network.NetworkInterface";
    "compute.VirtualMachine"; "sql.Server"; "sql.Database" ].

(** Modelled from the spec: the enumeration members the script names;
    each stands for its string. *)
Definition SkuName_STANDARD_LRS : string := "Standard_LRS".
Definition Kind_STORAGE_V2 : string := "StorageV2".
Definition IPAllocationMethod_DYNAMIC : string := "Dynamic".
Definition CachingTypes_READ_WRITE : string := "ReadWrite".
Definition DiskCreateOptionTypes_FROM_IMAGE : string := "FromImage".
Definition StorageAccountTypes_STANDARD_LRS : string := "Standard_LRS".

Definition str (s : string) : value := VLit (RStr s).

(** A replacement field of an f-string holding a string; the formatting
    of other values is not modelled. *)
Definition fmt (v : rvalue) : option string :=
  match v with
  | RStr s => Some s
  | _ => None
  end.

(** The f-string of the connection string, on the four interpolated
    strings. *)
Definition connection_string_text (server db user password : string) : string :=
  "Server=tcp:" +:+ server +:+ ".database.windows.net;Database=" +:+ db +:+
  ";User ID=" +:+ user +:+ ";Password=" +:+ password +:+
  ";Encrypt=true;Connection Timeout=30;".

Section Program.
(** The provider function [storage.list_storage_account_keys], on its
    keyword arguments. *)
Variable list_storage_account_keys : list (string * rvalue) → option rvalue.

(** [config = pulumi.Config()] *)
Variable config : gmap string string.

Definition location : string :=
  py_or (Config.get config "azure-native:location") "EastUS".

Definition admin_username : string :=
  py_or (Config.get config "adminUsername") "azureuser".
Definition admin_password : result Output.t :=
  Output.require_secret config "adminPassword".

Definition sql_admin_username : string :=
  py_or (Config.get config "sqlAdminUsername") "sqladminuser".
Definition sql_admin_password : result Output.t :=
  Output.require_secret config "sqlAdminPassword".

Definition sql_server_name : result string :=
  Config.require config "sqlServerName".

Definition resource_group : build handle :=
  declare "resource_group" "resources.ResourceGroup"
    [ ("location", str location) ].

Definition account (resource_group : handle) : build handle :=
  declare "sa" "storage.StorageAccount"
    [ ("resource_group_name", property_of resource_group "name");
      ("location", property_of resource_group "location");
      ("sku", VObj [ ("name", str SkuName_STANDARD_LRS) ]);
      ("kind", str Kind_STORAGE_V2) ].

Definition static_website (resource_group account : handle) : build handle :=
  declare "staticWebsite" "storage.StorageAccountStaticWebsite"
    [ ("account_name", property_of account "name");
      ("resource_group_name", property_of resource_group "name");
      ("index_document", str "index.html") ].

Definition index_html (resource_group account : handle) : build handle :=
  declare "index.html" "storage.Blob"
    [ ("resource_group_name", property_of resource_group "name");
      ("account_name", property_of account "name");
      ("container_name", str "$web");
      ("source", VLit (RAsset "index.html"));
      ("content_type", str "text/html") ].

Definition primary_key (resource_group account : handle) : Output.t :=
  Output.apply
    (λ account_keys,
       keys ← Output.field "keys" account_keys;
       key ← Output.item 0 keys;
       Output.field "value" key)
    (Output.apply
       (λ args,
          a0 ← Output.item 0 args;
          a1 ← Output.item 1 args;
          list_storage_account_keys
            [ ("resource_group_name", a0); ("account_name", a1) ])
       (Output.all [ Output.attr resource_group "name";
                     Output.attr account "name" ])).

Definition vnet (resource_group : handle) : build handle :=
  declare "myVNet" "network.VirtualNetwork"
    [ ("resource_group_name", property_of resource_group "name");
      ("location", property_of resource_group "location");
      ("address_space",
         VObj [ ("address_prefixes", VList [ str "10.0.0.0/16" ]) ]) ].

Definition subnet (resource_group vnet : handle) : build handle :=
  declare "mySubnet" "network.Subnet"
    [ ("resource_group_name", property_of resource_group "name");
      ("virtual_network_name", property_of vnet "name");
      ("address_prefix", str "10.0.1.0/24") ].

Definition nic (resource_group subnet : handle) : build handle :=
  declare "myNIC" "network.NetworkInterface"
    [ ("resource_group_name", property_of resource_group "name");
      ("location", property_of resource_group "location");
      ("ip_configurations",
         VList [ VObj [ ("name", str "ipconfig1");
                        ("subnet", VObj [ ("id", property_of subnet "id") ]);
                        ("private_ip_allocation_method",
                           str IPAllocationMethod_DYNAMIC) ] ]) ].

Definition vm (admin_password : Output.t) (resource_group nic : handle)
  : build handle :=
  declare "myVM" "compute.VirtualMachine"
    [ ("resource_group_name", property_of resource_group "name");
      ("location", property_of resource_group "location");
      ("network_profile",
         VObj [ ("network_interfaces",
                   VList [ VObj [ ("id", property_of nic "id");
                                  ("primary", VLit (RBool true)) ] ]) ]);
      ("hardware_profile", VObj [ ("vm_size", str "Standard_DS1_v2") ]);
      ("os_profile",
         VObj [ ("computer_name", str "myvm");
                ("admin_username", str admin_username);
                ("admin_password", Output.val admin_password) ]);
      ("storage_profile",
         VObj [ ("image_reference",
                   VObj [ ("publisher", str "Canonical");
                          ("offer", str "UbuntuServer");
                          ("sku", str "18.04-LTS");
                          ("version", str "latest") ]);
                ("os_disk",
                   VObj [ ("name", str "myOSDisk");
                          ("caching", str CachingTypes_READ_WRITE);
                          ("create_option", str DiskCreateOptionTypes_FROM_IMAGE);
                          ("managed_disk",
                             VObj [ ("storage_account_type",
                                       str StorageAccountTypes_STANDARD_LRS) ]) ]) ]) ].

Definition sql_server (sql_admin_password : Output.t) (sql_server_name : string)
    (resource_group : handle) : build handle :=
  declare "mySqlServer" "sql.Server"
    [ ("resource_group_name", property_of resource_group "name");
      ("location", property_of resource_group "location");
      ("server_name", str sql_server_name);
      ("administrator_login", str sql_admin_username);
      ("administrator_login_password", Output.val sql_admin_password);
      ("version", str "12.0");
      ("public_network_access", str "Enabled") ].

Definition sql_database (resource_group sql_server : handle) : build handle :=
  declare "mySqlDatabase" "sql.Database"
    [ ("resource_group_name", property_of resource_group "name");
      ("server_name", property_of sql_server "name");
      ("sku", VObj [ ("name", str "S0"); ("tier", str "Standard") ]) ].

Definition connection_string (sql_admin_password : Output.t)
    (sql_server sql_database : handle) : Output.t :=
  Output.apply
    (λ args,
       a0 ← Output.item 0 args ≫= fmt;
       a1 ← Output.item 1 args ≫= fmt;
       a2 ← Output.item 2 args ≫= fmt;
       a3 ← Output.item 3 args ≫= fmt;
       Some (RStr (connection_string_text a0 a1 a2 a3)))
    (Output.all [ Output.attr sql_server "name";
                  Output.attr sql_database "name";
                  Output.from_input sql_admin_username;
                  sql_admin_password ]).

(** The module body, top to bottom. *)
Definition program : build unit :=
  admin_password ← lift admin_password;
  sql_admin_password ← lift sql_admin_password;
  sql_server_name ← lift sql_server_name;
  resource_group ← resource_group;
  account ← account resource_group;
  static_website ← static_website resource_group account;
  index_html ← index_html resource_group account;
  Output.export "primary_storage_key"
    (Output.secret (primary_key resource_group account));;
  Output.export "staticEndpoint"
    (Output.getattr "web" (Output.attr account "primary_endpoints"));;
  vnet ← vnet resource_group;
  subnet ← subnet resource_group vnet;
  nic ← nic resource_group subnet;
  vm ← vm admin_password resource_group nic;
  Output.export "vm_id" (Output.attr vm "id");;
  sql_server ← sql_server sql_admin_password sql_server_name resource_group;
  sql_database ← sql_database resource_group sql_server;
  Output.export "sql_connection_string"
    (Output.secret (connection_string sql_admin_password sql_server sql_database)).

(** Running the script against a fresh builder of the provider. *)
Definition main : result builder :=
  snd <$> program (Builder.new azure_native).
End Program.

End Script.

(** ** A run of the script *)

Module Sample.
Import Builder.

(** The three required settings, and nothing else. *)
Definition config : gmap string string :=
  {[ "adminPassword" := "vm-pass"; "sqlAdminPassword" := "sql-pass";
     "sqlServerName" := "sqlsrv01" ]}.

Definition list_keys (args : list (string * rvalue)) : option rvalue :=
  Some (RObj [ ("keys", RList [ RObj [ ("value", RStr "key-0") ] ]) ]).

(** The builder after the script. *)
Definition declared : builder :=
  match Script.main list_keys config with
  | Ok st => st
  | Err _ => Builder.new []
  end.

Definition plan : list resource :=
  match build_plan declared with
  | Ok p => p
  | Err _ => []
  end.

(** An executor that creates everything; its world counts the resources
    created. *)
Definition exec : @executor nat := λ type props w,
  (Created [ ("name", RStr ("name-of-" +:+ type));
             ("id", RStr ("id-of-" +:+ type));
             ("location", RStr "EastUS");
             ("primary_endpoints", RObj [ ("web", RStr "https://web.example/") ]) ],
   S w).


Definition run := resolve declared plan exec 0.


Definition resource_at (i : nat) (rs : list resource) : resource :=
  default {| res_name := ""; res_type := ""; res_props := [] |} (rs !! i).


Definition outputs_of (r : result (list (string * exported)))
  : list (string * exported) :=
  match r with
  | Ok res => res
  | Err _ => []
  end.

(** The settings without the SQL server name. *)
Definition unnamed : gmap string string := delete "sqlServerName" config.

(** The settings with an empty location and a SQL admin user of their
    own, and the builder after the script on them. *)
Definition blank : gmap string string :=
  <[ "azure-native:location" := "" ]> (<[ "sqlAdminUsername" := "dbadmin" ]> config).

Definition blank_declared : builder :=
  match Script.main list_keys blank with
  | Ok st => st
  | Err _ => Builder.new []
  end.

(** A provider that lists no key, and the run of the script on it. *)
Definition no_keys (args : list (string * rvalue)) : option rvalue :=
  Some (RObj [ ("keys", RList []) ]).

Definition keyless : builder :=
  match Script.main no_keys config with
  | Ok st => st
  | Err _ => Builder.new []
  end.

Definition keyless_run := resolve keyless plan exec 0.


End Sample.

(** * Properties *)

Import Builder.

(** ** Picking the next resource *)

Lemma ready_spec placed r :
  ready placed r = true ↔ ∀ d, d ∈ deps r → d ∈ placed.
Proof.
  unfold ready. rewrite forallb_forall. split.
  - intros H d Hd. apply list_elem_of_In in Hd. apply H in Hd.
    by apply bool_decide_eq_true in Hd.
  - intros H d Hd. apply bool_decide_eq_true, H. by apply list_elem_of_In.
Qed.

Lemma pick_Some placed pending r rest :
  pick placed pending = Some (r, rest) →
  ∃ l1 l2, pending = l1 ++ r :: l2 ∧ rest = l1 ++ l2 ∧
    Forall (λ x, ready placed x = false) l1 ∧ ready placed r = true.
Proof.
  revert rest. induction pending as [|x pending IH]; intros rest; simpl; [done|].
  destruct (ready placed x) eqn:Hx.
  - intros [= -> ->]. by exists [], rest.
  - destruct (pick placed pending) as [[y rest']|] eqn:Hp; [|done].
    intros [= -> <-]. destruct (IH rest' eq_refl) as (l1 & l2 & -> & -> & Hl1 & Hr).
    exists (x :: l1), l2. repeat split; auto.
Qed.

Lemma pick_None placed pending :
  pick placed pending = None → Forall (λ x, ready placed x = false) pending.
Proof.
  induction pending as [|x pending IH]; simpl; [constructor|].
  destruct (ready placed x) eqn:Hx; [done|].
  destruct (pick placed pending) as [[y rest']|]; [done|].
  intros _. constructor; auto.
Qed.

Lemma blocker_Some placed r :
  ready placed r = false → ∃ d, blocker placed r = Some d ∧ d ∈ deps r ∧ d ∉ placed.
Proof.
  unfold ready, blocker. intros H.
  induction (deps r) as [|d ds IH]; simpl in *; [done|].
  destruct (bool_decide (d ∈ placed)) eqn:Hd; simpl in *.
  - destruct (IH H) as (d' & ? & ? & ?). exists d'. split_and!; auto. by right.
  - exists d. apply bool_decide_eq_false in Hd. split_and!; auto. by left.
Qed.

Lemma by_name_Some n rs :
  n ∈ names rs → ∃ r, by_name n rs = Some r ∧ r ∈ rs ∧ res_name r = n.
Proof.
  unfold by_name, names. induction rs as [|x rs IH]; simpl.
  - by intros ?%elem_of_nil.
  - intros Hn. destruct (bool_decide (res_name x = n)) eqn:Hx.
    + apply bool_decide_eq_true in Hx. exists x. split_and!; auto. by left.
    + apply bool_decide_eq_false in Hx. apply elem_of_cons in Hn as [Hn|Hn]; [done|].
      destruct (IH Hn) as (r & ? & ? & ?). exists r. split_and!; auto. by right.
Qed.

(** ** Chains and cycles *)

Lemma edge_mono rs rs' a b :
  (∀ r, r ∈ rs → r ∈ rs') → edge rs a b → edge rs' a b.
Proof. intros Hsub (r & ? & ? & ?). exists r. auto. Qed.

Lemma chain_mono rs rs' a via z :
  (∀ r, r ∈ rs → r ∈ rs') → chain rs a via z → chain rs' a via z.
Proof.
  intros Hsub. revert a. induction via as [|b via IH]; simpl; intros a.
  - by apply edge_mono.
  - intros [? ?]. split; [by eapply edge_mono|auto].
Qed.

Lemma is_cycle_mono rs rs' ns :
  (∀ r, r ∈ rs → r ∈ rs') → is_cycle rs ns → is_cycle rs' ns.
Proof. destruct ns; simpl; [done|]. apply chain_mono. Qed.

Lemma chain_snoc rs a via n z :
  chain rs a via n → edge rs n z → chain rs a (via ++ [n]) z.
Proof.
  revert a. induction via as [|b via IH]; simpl; intros a.
  - auto.
  - intros [? ?] ?. split; auto.
Qed.

Lemma chain_target rs a via z : chain rs a via z → ∃ y, edge rs y z.
Proof.
  revert a. induction via as [|b via IH]; simpl; intros a.
  - eauto.
  - intros [_ ?]. eauto.
Qed.

(** ** Walking to a cycle *)

Lemma find_cycle_head placed pending r rest :
  pending = r :: rest →
  find_cycle placed pending = walk (length pending) placed pending [] (res_name r).
Proof. by intros ->. Qed.

Section Walk.
Variable placed : list string.
Variable pending : list resource.
Hypothesis stuck : Forall (λ r, ready placed r = false) pending.
Hypothesis inside :
  ∀ r d, r ∈ pending → d ∈ deps r → d ∈ placed ∨ d ∈ names pending.

Lemma step_Some cur :
  cur ∈ names pending →
  ∃ d, by_name cur pending ≫= blocker placed = Some d ∧
       edge pending cur d ∧ d ∈ names pending.
Proof.
  intros Hcur. destruct (by_name_Some _ _ Hcur) as (r & -> & Hr & Hn). simpl.
  rewrite Forall_forall in stuck.
  destruct (blocker_Some placed r (stuck r Hr)) as (d & -> & Hd & Hnd).
  exists d. split_and!; [done|by exists r|].
  destruct (inside r d Hr Hd); [done|auto].
Qed.

Lemma close_cycle_chain cur path z :
  cur ∈ path → linked pending path z → chain pending cur (reverse (since cur path)) z.
Proof.
  revert z. induction path as [|n path IH]; intros z; simpl.
  - by intros ?%elem_of_nil.
  - intros Hin [He Hl]. case_bool_decide as Hn.
    + subst n. done.
    + rewrite reverse_cons. apply chain_snoc; [|done].
      apply IH; [|done]. apply elem_of_cons in Hin as [?|?]; [by subst|done].
Qed.

Lemma walk_is_cycle fuel path cur :
  cur ∈ names pending →
  (∀ n, n ∈ path → n ∈ names pending) →
  NoDup path →
  linked pending path cur →
  (length pending ≤ fuel + length path)%nat →
  is_cycle pending (walk fuel placed pending path cur).
Proof.
  revert path cur. induction fuel as [|fuel IH]; intros path cur Hcur Hsub Hnd Hl Hlen.
  - simpl. case_bool_decide as Hin.
    + by apply close_cycle_chain.
    + exfalso. assert (cur :: path ⊆+ names pending) as Hle.
      { apply NoDup_submseteq; [by constructor|].
        intros x [->|?]%elem_of_cons; auto. }
      apply submseteq_length in Hle. unfold names in Hle.
      rewrite length_fmap in Hle. simpl in *. lia.
  - simpl. case_bool_decide as Hin.
    + by apply close_cycle_chain.
    + destruct (step_Some cur Hcur) as (d & -> & He & Hd).
      apply IH; auto.
      * intros x [->|?]%elem_of_cons; auto.
      * by constructor.
      * simpl. auto.
      * simpl. lia.
Qed.

Lemma find_cycle_is_cycle :
  pending ≠ [] → is_cycle pending (find_cycle placed pending).
Proof.
  intros Hne.
  assert (∃ r rest, pending = r :: rest) as (r & rest & E).
  { clear stuck inside. destruct pending; [done|eauto]. }
  rewrite (find_cycle_head _ _ _ _ E). apply walk_is_cycle.
  - rewrite E. simpl. by left.
  - by intros ? ?%elem_of_nil.
  - constructor.
  - done.
  - simpl. lia.
Qed.
End Walk.

(** ** The sorting loop *)

Lemma closed_dangling rs : closed rs ↔ dangling rs = None.
Proof.
  unfold closed, dangling. split.
  - intros Hc. destruct (find _ _) as [[a x]|] eqn:Hf; [|done].
    apply find_some in Hf as [Hin Hb]. apply in_flat_map in Hin as (r & Hr & Hin).
    apply list_elem_of_In in Hr, Hin. specialize (Hc r a x Hr Hin).
    apply negb_true_iff, bool_decide_eq_false in Hb. done.
  - intros Hf r a x Hr Hin.
    assert (In (a, x) (flat_map (λ r, prop_refs (res_props r)) rs)) as HI.
    { apply in_flat_map. exists r. by rewrite <- !list_elem_of_In. }
    apply (find_none _ _ Hf) in HI. simpl in HI.
    by apply negb_false_iff, bool_decide_eq_true in HI.
Qed.

Lemma closed_deps rs r d : closed rs → r ∈ rs → d ∈ deps r → d ∈ names rs.
Proof.
  intros Hc Hr Hd. unfold deps in Hd.
  apply list_elem_of_fmap in Hd as ([a x] & -> & Hin). eauto.
Qed.

Lemma names_app l1 l2 : names (l1 ++ l2) = names l1 ++ names l2.
Proof. unfold names. apply fmap_app. Qed.

Lemma sort_loop_Err n placed pending e :
  length pending = n →
  (∀ r d, r ∈ pending → d ∈ deps r → d ∈ names placed ∨ d ∈ names pending) →
  sort_loop n placed pending = Err e →
  ∃ ns, e = CycleError ns ∧ is_cycle pending ns.
Proof.
  revert placed pending. induction n as [|n IH]; intros placed pending Hlen Hin; simpl; [done|].
  destruct (pick (names placed) pending) as [[r rest]|] eqn:Hp.
  - apply pick_Some in Hp as (l1 & l2 & -> & -> & _ & _). intros Hs.
    destruct (IH (placed ++ [r]) (l1 ++ l2)) as (ns & -> & Hc); auto.
    + rewrite length_app in *. simpl in *. lia.
    + intros x d Hx Hd. rewrite names_app. simpl.
      destruct (Hin x d) as [?|Hd']; auto.
      * set_solver.
      * set_solver.
      * rewrite names_app in Hd'. simpl in Hd'. rewrite names_app. set_solver.
    + exists ns. split; [done|]. eapply is_cycle_mono; [|done]. set_solver.
  - intros [= <-]. eexists. split; [done|].
    apply find_cycle_is_cycle; [by apply pick_None|done|].
    destruct pending; [done|done].
Qed.

Lemma ordered_snoc plan r :
  ordered plan → (∀ d, d ∈ deps r → d ∈ names plan) → ordered (plan ++ [r]).
Proof.
  intros Ho Hr l1 x l2 d E Hd.
  destruct l2 as [|y l2 _] using rev_ind.
  - apply app_inj_tail in E as [-> ->]. auto.
  - rewrite app_comm_cons, app_assoc in E. apply app_inj_tail in E as [-> _].
    eapply Ho; eauto.
Qed.

Lemma sort_loop_Ok n placed pending plan :
  length pending = n →
  sort_loop n placed pending = Ok plan →
  ∃ order, plan = placed ++ order ∧ order ≡ₚ pending ∧
           (ordered placed → ordered plan).
Proof.
  revert placed pending. induction n as [|n IH]; intros placed pending Hlen; simpl.
  - intros [= <-]. apply nil_length_inv in Hlen as ->.
    exists []. by rewrite app_nil_r.
  - destruct (pick (names placed) pending) as [[r rest]|] eqn:Hp; [|done].
    apply pick_Some in Hp as (l1 & l2 & -> & -> & _ & Hr). intros Hs.
    assert (length (l1 ++ l2) = n) as Hlen'.
    { rewrite length_app in *. simpl in *. lia. }
    destruct (IH _ _ Hlen' Hs) as (order & -> & Hperm & Hord).
    exists (r :: order). split_and!.
    + by rewrite <- app_assoc.
    + rewrite Hperm. apply Permutation_middle.
    + intros Ho. apply Hord, ordered_snoc; [done|]. by apply ready_spec.
Qed.

(** ** A plan in order has no cycle *)

Lemma ordered_app_inv plan r :
  ordered (plan ++ [r]) → ordered plan ∧ ∀ d, d ∈ deps r → d ∈ names plan.
Proof.
  intros Ho. split.
  - intros l1 x l2 d -> Hd. apply (Ho l1 x (l2 ++ [r]) d); [|done].
    by rewrite <- app_assoc.
  - intros d Hd. apply (Ho plan r [] d); done.
Qed.

Lemma ordered_target plan a b : ordered plan → edge plan a b → b ∈ names plan.
Proof.
  intros Ho (r & Hr & _ & Hb). apply list_elem_of_split in Hr as (l1 & l2 & ->).
  rewrite names_app. apply elem_of_app. left. by eapply Ho.
Qed.

Lemma edge_snoc plan r a b :
  edge (plan ++ [r]) a b → edge plan a b ∨ (a = res_name r ∧ b ∈ deps r).
Proof.
  intros (x & Hx & Ha & Hb). apply elem_of_app in Hx as [Hx|Hx].
  - left. by exists x.
  - apply list_elem_of_singleton in Hx as ->. by right.
Qed.

Lemma chain_restrict plan r a via z :
  (∀ x y, edge (plan ++ [r]) x y → y ≠ res_name r) →
  a ≠ res_name r → chain (plan ++ [r]) a via z → chain plan a via z.
Proof.
  intros Ht. revert a. induction via as [|b via IH]; simpl; intros a Ha.
  - intros He. by destruct (edge_snoc _ _ _ _ He) as [?|[? _]].
  - intros [He Hc]. split.
    + by destruct (edge_snoc _ _ _ _ He) as [?|[? _]].
    + apply IH; [|done]. by eapply Ht.
Qed.

Lemma ordered_acyclic plan : NoDup (names plan) → ordered plan → acyclic plan.
Proof.
  induction plan as [|r plan IH] using rev_ind; intros Hnd Ho ns Hc.
  - destruct ns as [|a via]; [done|]. simpl in Hc.
    apply chain_target in Hc as (y & x & Hx & _). by apply elem_of_nil in Hx.
  - rewrite names_app in Hnd. apply NoDup_app in Hnd as (Hnd & Hfresh & _).
    apply ordered_app_inv in Ho as [Ho Hr].
    assert (∀ x y, edge (plan ++ [r]) x y → y ≠ res_name r) as Ht.
    { intros x y He ->. apply (Hfresh (res_name r)); [|simpl; by left].
      destruct (edge_snoc _ _ _ _ He) as [He'|[_ Hd]]; [|auto].
      by eapply ordered_target. }
    destruct ns as [|a via]; [done|]. simpl in Hc.
    apply (IH Hnd Ho (a :: via)). simpl.
    apply (chain_restrict plan r); [done| |done].
    destruct (chain_target _ _ _ _ Hc) as (y & He). by eapply Ht.
Qed.

(** ** Ties go to the resource declared first *)

Lemma filter_other_names r l :
  res_name r ∉ names l → filter (λ x, res_name x ≠ res_name r) l = l.
Proof.
  induction l as [|x l IH]; simpl; [done|]. intros Hn.
  rewrite filter_cons. apply not_elem_of_cons in Hn as [Hx Hl].
  rewrite decide_True by done. by rewrite IH.
Qed.

Lemma filter_fresh_nil (rs : list resource) : filter (λ x, res_name x ∉ names []) rs = rs.
Proof.
  induction rs as [|x rs IH]; [done|]. rewrite filter_cons, IH.
  rewrite decide_True; [done|]. by intros ?%elem_of_nil.
Qed.

Lemma filter_fresh_snoc rs (placed : list resource) r l1 l2 :
  NoDup (names (l1 ++ r :: l2)) →
  l1 ++ r :: l2 = filter (λ x, res_name x ∉ names placed) rs →
  l1 ++ l2 = filter (λ x, res_name x ∉ names (placed ++ [r])) rs.
Proof.
  intros Hnd E.
  rewrite (list_filter_iff _
    (λ x, res_name x ≠ res_name r ∧ res_name x ∉ names placed)).
  2:{ intros x. rewrite names_app. simpl. set_solver. }
  rewrite <- list_filter_filter, <- E, filter_app, filter_cons.
  rewrite decide_False by (intros H; by apply H).
  rewrite names_app in Hnd. simpl in Hnd.
  apply NoDup_app in Hnd as (_ & H1 & [H2 _]%NoDup_cons).
  rewrite !filter_other_names; [done|done|].
  intros Hin. apply (H1 _ Hin). by left.
Qed.

Lemma sort_loop_first_ready rs n placed pending plan :
  NoDup (names pending) →
  pending = filter (λ x, res_name x ∉ names placed) rs →
  length pending = n →
  sort_loop n placed pending = Ok plan →
  ∀ l1 r l2, plan = l1 ++ r :: l2 → (length placed ≤ length l1)%nat →
    first_ready rs l1 r.
Proof.
  revert placed pending. induction n as [|n IH]; intros placed pending Hnd Hf Hlen; simpl.
  - intros [= <-] l1 r l2 -> Hl. rewrite length_app in Hl. simpl in Hl. lia.
  - destruct (pick (names placed) pending) as [[r0 rest]|] eqn:Hp; [|done].
    apply pick_Some in Hp as (p1 & p2 & -> & -> & Hp1 & Hr0). intros Hs.
    assert (length (p1 ++ p2) = n) as Hlen'.
    { rewrite length_app in *. simpl in *. lia. }
    assert (NoDup (names (p1 ++ p2))) as Hnd'.
    { rewrite names_app in *. simpl in Hnd.
      apply NoDup_app in Hnd as (? & ? & [? ?]%NoDup_cons).
      apply NoDup_app. split_and!; [done| |done]. set_solver. }
    pose proof (filter_fresh_snoc _ _ _ _ _ Hnd Hf) as Hf'.
    intros l1 r l2 E Hl.
    destruct (decide (length l1 = length placed)) as [Heq|Hne].
    + destruct (sort_loop_Ok _ _ _ _ Hlen' Hs) as (order & Hplan & _).
      rewrite Hplan, <- app_assoc in E. simpl in E.
      apply app_inj_1 in E as [-> [= -> _]]; [|done].
      exists p1, p2. by rewrite <- Hf.
    + eapply (IH _ _ Hnd' Hf' Hlen' Hs); [done|].
      rewrite length_app. simpl. lia.
Qed.

(** ** The plan of a builder *)

Lemma plan_of_Ok rs plan :
  plan_of rs = Ok plan → closed rs ∧ plan ≡ₚ rs ∧ ordered plan.
Proof.
  unfold plan_of. destruct (dangling rs) as [[a x]|] eqn:Hd; [done|].
  intros Hs. destruct (sort_loop_Ok _ _ _ _ eq_refl Hs) as (order & -> & Hp & Ho).
  split_and!; [by apply closed_dangling|done|]. apply Ho.
  intros l1 r l2 d E. by destruct l1.
Qed.

Lemma plan_of_Ok_acyclic rs plan :
  NoDup (names rs) → plan_of rs = Ok plan → acyclic rs.
Proof.
  intros Hnd (_ & Hp & Ho)%plan_of_Ok ns Hc.
  apply (ordered_acyclic plan) with ns; [|done|].
  - unfold names. by rewrite Hp.
  - eapply is_cycle_mono; [|done]. intros r. by rewrite Hp.
Qed.

Lemma plan_of_Err rs e :
  closed rs → plan_of rs = Err e → ∃ ns, e = CycleError ns ∧ is_cycle rs ns.
Proof.
  intros Hc. unfold plan_of. apply closed_dangling in Hc as Hd. rewrite Hd.
  apply sort_loop_Err; [done|]. intros r d Hr Hdep. right. by eapply closed_deps.
Qed.

(** C1: for an acyclic set of declared resources, [build_plan] succeeds,
    and its plan holds every declared resource once, each after all the
    resources it references through deferred values. *)
Theorem build_plan_acyclic (st : builder) :
  closed (resources st) → acyclic (resources st) →
  ∃ plan, build_plan st = Ok plan ∧ plan ≡ₚ resources st ∧ ordered plan.
Proof.
  intros Hc Ha. unfold build_plan.
  destruct (plan_of (resources st)) as [plan|e] eqn:Hp.
  - exists plan. by destruct (plan_of_Ok _ _ Hp) as (_ & ? & ?).
  - destruct (plan_of_Err _ _ Hc Hp) as (ns & _ & Hcyc). by destruct (Ha ns).
Qed.


(** C4: [build_plan] depends on the declared resources and their order
    only, so two runs on the same declarations return the same plan; and
    at every position of the plan stands the first resource, in
    declaration order, among those not placed yet whose references are
    all placed. *)
Theorem build_plan_deterministic (st : builder) plan :
  NoDup (names (resources st)) →
  build_plan st = Ok plan →
  (∀ st', resources st' = resources st → build_plan st' = Ok plan) ∧
  (∀ l1 r l2, plan = l1 ++ r :: l2 → first_ready (resources st) l1 r).
Proof.
  intros Hnd Hp. split.
  - intros st' E. unfold build_plan in *. by rewrite E.
  - unfold build_plan, plan_of in Hp.
    destruct (dangling (resources st)) as [[a x]|]; [done|].
    intros l1 r l2 E. eapply sort_loop_first_ready; try done.
    + by rewrite filter_fresh_nil.
    + simpl. lia.
Qed.

(** ** Resolution *)

Lemma mapM_cons_Ok {A B} (f : A → result B) x l k :
  mapM f (x :: l) = Ok k →
  ∃ y k', f x = Ok y ∧ mapM f l = Ok k' ∧ k = y :: k'.
Proof.
  simpl. destruct (f x) as [y|e]; simpl; [|done].
  destruct (mapM f l) as [k'|e]; simpl; [|done].
  intros [= <-]. eauto.
Qed.


Section ResolveFacts.
Context {W : Type}.
Implicit Types (exec : @executor W) (w : W).


Lemma walk_plan_store exec plan s w log w' s' :
  walk_plan exec plan s w = (log, w', Ok s') → s' = record log s.
Proof.
  revert s w log. induction plan as [|r0 rest IH]; intros s w log; simpl.
  - by intros [= <- _ <-].
  - destruct (subst_props s (res_props r0)) as [ps|e]; [|done].
    destruct (exec (res_type r0) ps w) as [o w1]. destruct o as [outs|msg]; [|done].
    destruct (walk_plan exec rest ((res_name r0, outs) :: s) w1)
      as [[log1 w2] res1] eqn:Hw.
    intros [= <- <- ->]. simpl. by eapply IH.
Qed.
End ResolveFacts.


Lemma resolve_outputs_Ok s outs res :
  mapM (resolve_output s) outs = Ok res → Forall2 (resolved_as s) outs res.
Proof.
  revert res. induction outs as [|o outs IH]; intros res.
  - intros [= <-]. constructor.
  - intros (ne & res' & Ho & Hrest & ->)%mapM_cons_Ok. constructor; [|auto].
    unfold resolve_output in Ho. destruct (subst s (out_value o)) as [v|] eqn:E; [|done].
    injection Ho as <-. by exists v.
Qed.



Lemma resolve_unfold {W} (st : builder) plan (exec : @executor W) w log w' res :
  resolve st plan exec w = (log, w', res) →
  ∃ r, walk_plan exec plan [] w = (log, w', r) ∧
       res = r ≫= λ s, mapM (resolve_output s) (outputs st).
Proof.
  unfold resolve. destruct (walk_plan exec plan [] w) as [[log0 w0] r].
  intros [= <- <- <-]. by exists r.
Qed.




(** ** The builder keeps names apart *)

Lemma declare_NoDup name type properties st h st' :
  NoDup (names (resources st)) →
  declare name type properties st = Ok (h, st') →
  NoDup (names (resources st')).
Proof.
  intros Hnd. unfold declare. case_bool_decide as Hn; [done|].
  case_bool_decide; [|done]. intros [= _ <-]. simpl.
  rewrite names_app. apply NoDup_app. split_and!; [done| |apply NoDup_singleton].
  intros x Hx [->|[]%elem_of_nil]%elem_of_cons. done.
Qed.

Lemma export_NoDup name v secret st u st' :
  NoDup (out_name <$> outputs st) →
  Builder.export name v secret st = Ok (u, st') →
  NoDup (out_name <$> outputs st').
Proof.
  intros Hnd [= _ <-]. simpl. rewrite fmap_app. apply NoDup_app. split_and!.
  - eapply sublist_NoDup; [exact Hnd|]. apply fmap_sublist, sublist_filter.
  - intros x (o & -> & [Ho _]%list_elem_of_filter)%list_elem_of_fmap.
    intros [?|[]%elem_of_nil]%elem_of_cons. done.
  - apply NoDup_singleton.
Qed.

(** ** The script *)

(** Runs the script on a symbolic configuration: the three required
    settings are split into present and absent, the optional ones are
    left as they are. *)
Ltac run_script cfg :=
  unfold Script.main, Script.program;
  unfold Script.admin_password, Script.sql_admin_password, Script.sql_server_name;
  unfold Script.resource_group, Script.vm, Script.sql_server, Script.connection_string;
  unfold Output.require_secret, Config.require, Config.get;
  let pw := fresh "pw" in
  let spw := fresh "spw" in
  let srv := fresh "srv" in
  destruct (cfg !! "adminPassword") as [pw|] eqn:Hpw;
  [destruct (cfg !! "sqlAdminPassword") as [spw|] eqn:Hspw;
   [destruct (cfg !! "sqlServerName") as [srv|] eqn:Hsrv|]|].

Lemma py_or_configured (x : option string) d :
  py_or x d ≠ d → x = Some (py_or x d).
Proof.
  destruct x as [v|]; simpl; [|done]. by case_bool_decide.
Qed.

(** A setting that is present but empty counts as false for [or]: the
    default is taken. *)
Remark py_or_empty d : py_or (Some "") d = d.
Proof. done. Qed.

(** On every configuration the script accepts, the plan is the order of
    the declarations. *)
Lemma script_plan keys cfg st :
  Script.main keys cfg = Ok st → build_plan st = Ok (resources st).
Proof.
  run_script cfg; try done.
  generalize (Script.location cfg) (Script.admin_username cfg)
             (Script.sql_admin_username cfg).
  intros loc user sqluser H. vm_compute in H. injection H as <-.
  vm_compute. reflexivity.
Qed.

(** C7: a required plain setting that is absent makes the read fail with
    [ConfigMissingError]; the script, which requires the SQL server name,
    fails when that setting is absent and puts no default in its place. *)
Theorem require_fails_when_absent keys cfg :
  (∀ key, cfg !! key = None →
     Config.require cfg key = Err (ConfigMissingError key)) ∧
  (cfg !! "sqlServerName" = None →
     Script.sql_server_name cfg = Err (ConfigMissingError "sqlServerName") ∧
     ∃ key, Script.main keys cfg = Err (ConfigMissingError key) ∧
       (is_Some (cfg !! "adminPassword") →
        is_Some (cfg !! "sqlAdminPassword") → key = "sqlServerName")).
Proof.
  split.
  - intros key Hk. unfold Config.require, Config.get. by rewrite Hk.
  - intros Hk. split.
    { unfold Script.sql_server_name, Config.require, Config.get. by rewrite Hk. }
    run_script cfg; try done.
    + eexists. split; [reflexivity|done].
    + eexists. split; [reflexivity|]. by intros _ [? ?].
    + eexists. split; [reflexivity|]. by intros [? ?].
Qed.

(** C8, as amended: the location of the resource group, the admin user
    of the virtual machine and the administrator login of the SQL server
    are "EastUS", "azureuser" and "sqladminuser" when their settings are
    absent or empty, and are the configured values when these are
    present and not empty. *)
Theorem config_defaults keys cfg st :
  Script.main keys cfg = Ok st →
  ∃ loc user sqluser : string,
    property st "resource_group" "location" = Some (Script.str loc) ∧
    property st "myVM" "os_profile" ≫= member "admin_username" =
      Some (Script.str user) ∧
    property st "mySqlServer" "administrator_login" = Some (Script.str sqluser) ∧
    setting_or cfg "azure-native:location" "EastUS" loc ∧
    setting_or cfg "adminUsername" "azureuser" user ∧
    setting_or cfg "sqlAdminUsername" "sqladminuser" sqluser.
Proof.
  intros H.
  exists (Script.location cfg), (Script.admin_username cfg),
         (Script.sql_admin_username cfg).
  split_and!.
  1-3: revert H; run_script cfg; try done;
       generalize (Script.location cfg) (Script.admin_username cfg)
                  (Script.sql_admin_username cfg);
       intros loc user sqluser H; vm_compute in H; injection H as <-;
       reflexivity.
  all: unfold setting_or, Script.location, Script.admin_username,
         Script.sql_admin_username, Config.get;
       split_and!; [by intros ->|by intros ->|];
       intros v -> Hv; simpl; by rewrite bool_decide_eq_false_2.
Qed.

(** C8, as first stated, fails on an empty setting: the location is
    configured, as the empty string, and the resource group is declared
    in "EastUS". *)
Lemma config_defaults_counterexample :
  Sample.blank !! "azure-native:location" = Some "" ∧
  Script.main Sample.list_keys Sample.blank = Ok Sample.blank_declared ∧
  property Sample.blank_declared "resource_group" "location" =
    Some (Script.str "EastUS") ∧
  ¬ (∀ keys cfg st v,
       Script.main keys cfg = Ok st → cfg !! "azure-native:location" = Some v →
       property st "resource_group" "location" = Some (Script.str v)).
Proof.
  assert (Script.main Sample.list_keys Sample.blank = Ok Sample.blank_declared) as H.
  { vm_compute. reflexivity. }
  split_and!; [reflexivity|exact H|reflexivity|].
  intros Hall. by specialize (Hall _ _ _ "" H eq_refl).
Qed.

(** C9: the output [sql_connection_string] is the connection string
    with the resolved names of the SQL server and the database, the
    admin user and the admin password in their places; it comes back
    wrapped, and the password stands in it in plaintext. *)
Theorem connection_string_exported {W} keys cfg st plan (exec : @executor W) w
    log w' res server db :
  Script.main keys cfg = Ok st →
  resolve st plan exec w = (log, w', Ok res) →
  lookup_output (record log []) "mySqlServer" "name" = Some (RStr server) →
  lookup_output (record log []) "mySqlDatabase" "name" = Some (RStr db) →
  ∃ password,
    cfg !! "sqlAdminPassword" = Some password ∧
    assoc "sql_connection_string" res =
      Some (Wrapped (RStr
        ("Server=tcp:" +:+ server +:+ ".database.windows.net;Database=" +:+ db +:+
         ";User ID=" +:+ Script.sql_admin_username cfg +:+
         ";Password=" +:+ password +:+
         ";Encrypt=true;Connection Timeout=30;"))) ∧
    assoc "sql_connection_string" (public_view res) = None.
Proof.
  intros Hmain (r & Hw & Hres)%resolve_unfold Hserver Hdb.
  destruct r as [s|e]; [|done]. simpl in Hres. symmetry in Hres.
  apply walk_plan_store in Hw as ->. apply resolve_outputs_Ok in Hres.
  revert Hmain. run_script cfg; try done.
  generalize (Script.location cfg) (Script.admin_username cfg).
  intros loc user Hmain. exists spw. split; [done|].
  unfold snd, fmap, result_fmap in Hmain.
  match type of Hmain with
  | match ?m with _ => _ end = _ => destruct m as [[u st0]|] eqn:Hrun; [|done]
  end.
  injection Hmain as ->. vm_compute in Hrun.
  injection Hrun as _ <-. cbn [outputs] in Hres.
  inversion Hres as [|o1 ne1 ? ? (v1 & _ & ->) Hres2]; subst.
  inversion Hres2 as [|o2 ne2 ? ? (v2 & _ & ->) Hres3]; subst.
  inversion Hres3 as [|o3 ne3 ? ? (v3 & _ & ->) Hres4]; subst.
  inversion Hres4 as [|o4 ne4 ? ? (v4 & Hv4 & ->) Hres5]; subst.
  inversion Hres5; subst. clear Hres Hres2 Hres3 Hres4 Hres5.
  cbn in Hv4. rewrite Hserver, Hdb in Hv4. cbn in Hv4. injection Hv4 as <-.
  split; reflexivity.
Qed.

(** C10: the script declares one resource group, and every other
    resource it declares has the name output of that group as its
    [resource_group_name]. *)
Theorem all_in_resource_group keys cfg st :
  Script.main keys cfg = Ok st →
  ∃ rg, by_name "resource_group" (resources st) = Some rg ∧
        res_type rg = "resources.ResourceGroup" ∧
        ∀ r, r ∈ resources st → r ≠ rg →
             res_type r ≠ "resources.ResourceGroup" ∧
             assoc "resource_group_name" (res_props r) =
               Some (property_of (res_name rg) "name").
Proof.
  run_script cfg; try done.
  generalize (Script.location cfg) (Script.admin_username cfg)
             (Script.sql_admin_username cfg).
  intros loc user sqluser H. vm_compute in H. injection H as <-.
  eexists. split; [reflexivity|]. split; [reflexivity|].
  intros r Hr Hne. cbn [resources] in Hr.
  repeat (apply elem_of_cons in Hr as [->|Hr]); try done.
  by apply elem_of_nil in Hr.
Qed.

(** ** The theorems at the sample run *)

Lemma build_plan_acyclic_witness :
  closed (resources Sample.declared) ∧ acyclic (resources Sample.declared) ∧
  ∃ plan, build_plan Sample.declared = Ok plan ∧
          plan ≡ₚ resources Sample.declared ∧ ordered plan.
Proof.
  assert (closed (resources Sample.declared)) as Hc.
  { apply closed_dangling. vm_compute. reflexivity. }
  assert (acyclic (resources Sample.declared)) as Ha.
  { apply (plan_of_Ok_acyclic _ Sample.plan).
    - apply (bool_decide_unpack _). vm_compute. exact I.
    - vm_compute. reflexivity. }
  exact (conj Hc (conj Ha (build_plan_acyclic Sample.declared Hc Ha))).
Defined.


Lemma build_plan_deterministic_witness :
  build_plan Sample.declared = Ok Sample.plan ∧
  (∀ st', resources st' = resources Sample.declared →
          build_plan st' = Ok Sample.plan) ∧
  (∀ l1 r l2, Sample.plan = l1 ++ r :: l2 →
              first_ready (resources Sample.declared) l1 r).
Proof.
  assert (build_plan Sample.declared = Ok Sample.plan) as Hp.
  { vm_compute. reflexivity. }
  split; [exact Hp|].
  apply (build_plan_deterministic Sample.declared Sample.plan); [|exact Hp].
  apply (bool_decide_unpack _). vm_compute. exact I.
Defined.




Lemma require_fails_when_absent_witness :
  Sample.unnamed !! "sqlServerName" = None ∧
  Script.sql_server_name Sample.unnamed = Err (ConfigMissingError "sqlServerName") ∧
  ∃ key, Script.main Sample.list_keys Sample.unnamed = Err (ConfigMissingError key) ∧
    (is_Some (Sample.unnamed !! "adminPassword") →
     is_Some (Sample.unnamed !! "sqlAdminPassword") → key = "sqlServerName").
Proof.
  assert (Sample.unnamed !! "sqlServerName" = None) as H by reflexivity.
  split; [exact H|].
  exact (proj2 (require_fails_when_absent Sample.list_keys Sample.unnamed) H).
Defined.

Lemma config_defaults_witness :
  property Sample.blank_declared "resource_group" "location" =
    Some (Script.str "EastUS") ∧
  property Sample.blank_declared "myVM" "os_profile" ≫= member "admin_username" =
    Some (Script.str "azureuser") ∧
  property Sample.blank_declared "mySqlServer" "administrator_login" =
    Some (Script.str "dbadmin").
Proof.
  assert (Script.main Sample.list_keys Sample.blank = Ok Sample.blank_declared) as H.
  { vm_compute. reflexivity. }
  destruct (config_defaults Sample.list_keys Sample.blank Sample.blank_declared H)
    as (loc & user & sqluser & H1 & H2 & H3 &
        (_ & E1 & _) & (A2 & _ & _) & (_ & _ & P3)).
  rewrite H1, H2, H3, (E1 eq_refl), (A2 eq_refl), (P3 "dbadmin" eq_refl); done.
Defined.

Lemma connection_string_exported_witness :
  ∃ password,
    Sample.config !! "sqlAdminPassword" = Some password ∧
    assoc "sql_connection_string" (Sample.outputs_of Sample.run.2) =
      Some (Wrapped (RStr
        ("Server=tcp:" +:+ "name-of-sql.Server" +:+
         ".database.windows.net;Database=" +:+ "name-of-sql.Database" +:+
         ";User ID=" +:+ Script.sql_admin_username Sample.config +:+
         ";Password=" +:+ password +:+
         ";Encrypt=true;Connection Timeout=30;"))) ∧
    assoc "sql_connection_string" (public_view (Sample.outputs_of Sample.run.2)) =
      None.
Proof.
  apply (connection_string_exported Sample.list_keys Sample.config Sample.declared
           Sample.plan Sample.exec 0 Sample.run.1.1 Sample.run.1.2);
    vm_compute; reflexivity.
Defined.

Lemma all_in_resource_group_witness :
  ∃ rg, by_name "resource_group" (resources Sample.declared) = Some rg ∧
        res_type rg = "resources.ResourceGroup" ∧
        ∀ r, r ∈ resources Sample.declared → r ≠ rg →
             res_type r ≠ "resources.ResourceGroup" ∧
             assoc "resource_group_name" (res_props r) =
               Some (property_of (res_name rg) "name").
Proof.
  apply (all_in_resource_group Sample.list_keys Sample.config).
  vm_compute. reflexivity.
Defined.

(** * More about the script *)

(** ** What the script asks of the configuration *)

(** The script runs to its end exactly when the three required settings
    are present; no declaration of its own can fail. *)
Theorem script_accepts keys cfg :
  (∃ st, Script.main keys cfg = Ok st) ↔
  is_Some (cfg !! "adminPassword") ∧ is_Some (cfg !! "sqlAdminPassword") ∧
  is_Some (cfg !! "sqlServerName").
Proof.
  run_script cfg.
  - generalize (Script.location cfg) (Script.admin_username cfg)
               (Script.sql_admin_username cfg).
    intros loc user sqluser. split; [by eauto|]. intros _.
    eexists. vm_compute. reflexivity.
  - split; [by intros [st ?]|]. by intros (_ & _ & [? ?]).
  - split; [by intros [st ?]|]. by intros (_ & [? ?] & _).
  - split; [by intros [st ?]|]. by intros ([? ?] & _).
Qed.

(** When the script fails, the error names the first required setting,
    in the order the script reads them, that is absent. *)
Theorem script_first_missing keys cfg e :
  Script.main keys cfg = Err e →
  ∃ early key late,
    ["adminPassword"; "sqlAdminPassword"; "sqlServerName"] = early ++ key :: late ∧
    e = ConfigMissingError key ∧ cfg !! key = None ∧
    Forall (λ k, is_Some (cfg !! k)) early.
Proof.
  run_script cfg.
  - generalize (Script.location cfg) (Script.admin_username cfg)
               (Script.sql_admin_username cfg).
    intros loc user sqluser H. vm_compute in H. done.
  - intros [= <-]. exists ["adminPassword"; "sqlAdminPassword"], "sqlServerName", [].
    split_and!; [done..|]. repeat constructor; by eexists.
  - intros [= <-]. exists ["adminPassword"], "sqlAdminPassword", ["sqlServerName"].
    split_and!; [done..|]. repeat constructor; by eexists.
  - intros [= <-]. exists [], "adminPassword", ["sqlAdminPassword"; "sqlServerName"].
    split_and!; [done..|]. constructor.
Qed.

(** The required settings reach the resources as they are configured:
    the server name and the SQL admin password go to the SQL server, the
    VM admin password to the operating-system profile of the machine. *)
Theorem required_settings_used keys cfg st :
  Script.main keys cfg = Ok st →
  ∃ pw spw srv,
    cfg !! "adminPassword" = Some pw ∧ cfg !! "sqlAdminPassword" = Some spw ∧
    cfg !! "sqlServerName" = Some srv ∧
    property st "myVM" "os_profile" ≫= member "admin_password" =
      Some (Script.str pw) ∧
    property st "mySqlServer" "administrator_login_password" =
      Some (Script.str spw) ∧
    property st "mySqlServer" "server_name" = Some (Script.str srv).
Proof.
  run_script cfg; try done.
  generalize (Script.location cfg) (Script.admin_username cfg)
             (Script.sql_admin_username cfg).
  intros loc user sqluser H. vm_compute in H. injection H as <-.
  by exists pw, spw, srv.
Qed.

(** An optional setting that is present and not empty is used as it is;
    one that is present but empty gives way to the default, as an absent
    one does. *)
Theorem optional_settings_used keys cfg st :
  Script.main keys cfg = Ok st →
  ∀ key default where_used,
    (key, default, where_used) ∈
      [ ("azure-native:location", "EastUS",
           property st "resource_group" "location");
        ("adminUsername", "azureuser",
           property st "myVM" "os_profile" ≫= member "admin_username");
        ("sqlAdminUsername", "sqladminuser",
           property st "mySqlServer" "administrator_login") ] →
    ∀ v, cfg !! key = Some v →
      where_used = Some (Script.str (if bool_decide (v = "") then default else v)).
Proof.
  intros H key default where_used Hin v Hv.
  assert (property st "resource_group" "location" = Some (Script.str (Script.location cfg)) ∧
          property st "myVM" "os_profile" ≫= member "admin_username" =
            Some (Script.str (Script.admin_username cfg)) ∧
          property st "mySqlServer" "administrator_login" =
            Some (Script.str (Script.sql_admin_username cfg))) as (H1 & H2 & H3).
  { revert H. clear. run_script cfg; try done.
    generalize (Script.location cfg) (Script.admin_username cfg)
               (Script.sql_admin_username cfg).
    intros loc user sqluser H. vm_compute in H. by injection H as <-. }
  repeat (apply elem_of_cons in Hin as [[= -> -> ->]|Hin]).
  - rewrite H1. unfold Script.location, Config.get. by rewrite Hv.
  - rewrite H2. unfold Script.admin_username, Config.get. by rewrite Hv.
  - rewrite H3. unfold Script.sql_admin_username, Config.get. by rewrite Hv.
  - by apply elem_of_nil in Hin.
Qed.

(** ** What the script declares *)

(** Only the resource group takes its location from the configuration:
    the storage account, the network, the interface, the machine and the
    SQL server defer to the location the group comes back with, and the
    other resources carry none. *)
Theorem locations_follow_group keys cfg st r :
  Script.main keys cfg = Ok st → r ∈ resources st →
  res_name r ≠ "resource_group" →
  assoc "location" (res_props r) =
    if bool_decide (res_name r ∈ ["sa"; "myVNet"; "myNIC"; "myVM"; "mySqlServer"])
    then Some (property_of "resource_group" "location")
    else None.
Proof.
  run_script cfg; try done.
  generalize (Script.location cfg) (Script.admin_username cfg)
             (Script.sql_admin_username cfg).
  intros loc user sqluser H. vm_compute in H. injection H as <-.
  cbn [resources]. intros Hr Hne.
  repeat (apply elem_of_cons in Hr as [->|Hr]); try done.
  by apply elem_of_nil in Hr.
Qed.

(** Every deferred value of the script names a resource declared above
    it, under a name of its own: the order of the declarations is
    already an order of creation, and it is the plan. *)
Theorem declarations_in_dependency_order keys cfg st :
  Script.main keys cfg = Ok st →
  NoDup (names (resources st)) ∧ closed (resources st) ∧
  ordered (resources st) ∧ build_plan st = Ok (resources st).
Proof.
  intros H. pose proof (script_plan _ _ _ H) as Hplan.
  destruct (plan_of_Ok _ _ Hplan) as (Hc & _ & Ho). split_and!; try done.
  revert H. clear. run_script cfg; try done.
  generalize (Script.location cfg) (Script.admin_username cfg)
             (Script.sql_admin_username cfg).
  intros loc user sqluser H. vm_compute in H. injection H as <-.
  apply (bool_decide_unpack _). vm_compute. exact I.
Qed.

(** The connection string is secret already through the SQL admin
    password it is built from, whatever the handles; the storage key is
    secret only through the [Output.secret] around it. *)
Theorem secrecy_sources keys cfg spw sql_server sql_database resource_group account :
  Script.sql_admin_password cfg = Ok spw →
  Output.is_secret (Script.connection_string cfg spw sql_server sql_database) = true ∧
  Output.is_secret (Script.primary_key keys resource_group account) = false ∧
  Output.is_secret (Output.secret (Script.primary_key keys resource_group account)) =
    true.
Proof.
  unfold Script.sql_admin_password, Output.require_secret.
  destruct (Config.require cfg "sqlAdminPassword") as [v|]; [|done].
  intros [= <-]. split_and!; reflexivity.
Qed.

(** ** What resolving the script returns *)


Lemma walk_plan_complete {W} (exec : @executor W) plan s w log w' r :
  walk_plan exec plan s w = (log, w', r) →
  Forall created log → length log = length plan → r = Ok (record log s).
Proof.
  revert s w log. induction plan as [|r0 rest IH]; intros s w log; simpl.
  - by intros [= <- _ <-].
  - destruct (subst_props s (res_props r0)) as [ps|e]; [|by intros [= <- _ _]].
    destruct (exec (res_type r0) ps w) as [o w1]. destruct o as [outs|msg].
    + destruct (walk_plan exec rest ((res_name r0, outs) :: s) w1)
        as [[log1 w2] res1] eqn:Hw.
      intros [= <- <- <-] [_ Hc]%Forall_cons [= Hlen]. simpl.
      by apply (IH _ _ _ Hw).
    + intros [= <- _ _] [[outs Hc] _]%Forall_cons. done.
Qed.

Lemma mapM_head_Err {A B} (f : A → result B) x l e :
  f x = Err e → mapM f (x :: l) = Err e.
Proof. intros H. simpl. by rewrite H. Qed.

(** The outputs the script records, in order. *)
Lemma script_outputs keys cfg st :
  Script.main keys cfg = Ok st →
  ∃ spw, cfg !! "sqlAdminPassword" = Some spw ∧
    outputs st =
      [ {| out_name := "primary_storage_key";
           out_value := Output.val (Script.primary_key keys "resource_group" "sa");
           out_secret := true |};
        {| out_name := "staticEndpoint";
           out_value :=
             Output.val (Output.getattr "web" (Output.attr "sa" "primary_endpoints"));
           out_secret := false |};
        {| out_name := "vm_id"; out_value := property_of "myVM" "id";
           out_secret := false |};
        {| out_name := "sql_connection_string";
           out_value :=
             Output.val (Script.connection_string cfg
                           (Output.secret (Output.from_input spw))
                           "mySqlServer" "mySqlDatabase");
           out_secret := true |} ].
Proof.
  run_script cfg; try done.
  generalize (Script.location cfg) (Script.admin_username cfg)
             (Script.sql_admin_username cfg).
  intros loc user sqluser H. vm_compute in H. injection H as <-.
  exists spw. split; [done|]. vm_compute. reflexivity.
Qed.

Lemma resolve_Ok_outputs {W} (st : builder) plan (exec : @executor W) w log w' res :
  resolve st plan exec w = (log, w', Ok res) →
  Forall2 (resolved_as (record log [])) (outputs st) res.
Proof.
  intros (r & Hw & Hres)%resolve_unfold.
  destruct r as [s|e]; [|done]. simpl in Hres. symmetry in Hres.
  apply walk_plan_store in Hw as ->. by apply resolve_outputs_Ok.
Qed.

(** Resolving the outputs built by the operations of [Output]. *)
Lemma subst_attr s h p :
  subst s (Output.val (Output.attr h p)) =
  match lookup_output s h p with
  | Some r => Ok r
  | None => Err (UnresolvedReferenceError h p)
  end.
Proof. done. Qed.

Lemma subst_apply s f o :
  subst s (Output.val (Output.apply f o)) =
  subst s (Output.val o) ≫= λ x,
    match f x with Some r => Ok r | None => Err ApplyError end.
Proof. simpl. by destruct (subst s (Output.val o)). Qed.

Lemma subst_all2 s o1 o2 :
  subst s (Output.val (Output.all [o1; o2])) =
  subst s (Output.val o1) ≫= λ x1,
  subst s (Output.val o2) ≫= λ x2, Ok (RList [x1; x2]).
Proof.
  simpl. destruct (subst s (Output.val o1)); [|done].
  by destruct (subst s (Output.val o2)).
Qed.

(** Splits the resolved outputs of the script into its four entries. *)
Ltac script_entries Hres :=
  apply Forall2_cons_inv_l in Hres as (? & ? & (vkey & Hkey & ->) & Hres & ->);
  apply Forall2_cons_inv_l in Hres as (? & ? & (vweb & Hweb & ->) & Hres & ->);
  apply Forall2_cons_inv_l in Hres as (? & ? & (vid & Hid & ->) & Hres & ->);
  apply Forall2_cons_inv_l in Hres as (? & ? & (vconn & Hconn & ->) & Hres & ->);
  apply Forall2_nil_inv_l in Hres as ->;
  cbn [out_value out_name out_secret] in *.

(** When the script resolves, the non-secret view holds two entries and
    no other: the web endpoint of the storage account and the id of the
    machine, as the executor returned them. *)
Theorem script_public_view {W} keys cfg st plan (exec : @executor W) w log w' res :
  Script.main keys cfg = Ok st →
  resolve st plan exec w = (log, w', Ok res) →
  ∃ endpoints web id,
    lookup_output (record log []) "sa" "primary_endpoints" = Some endpoints ∧
    Output.field "web" endpoints = Some web ∧
    lookup_output (record log []) "myVM" "id" = Some id ∧
    public_view res = [ ("staticEndpoint", web); ("vm_id", id) ].
Proof.
  intros (spw & _ & Hout)%script_outputs Hres%resolve_Ok_outputs.
  rewrite Hout in Hres. script_entries Hres. clear Hkey Hconn.
  unfold Output.getattr in Hweb. rewrite subst_apply, subst_attr in Hweb.
  destruct (lookup_output _ "sa" "primary_endpoints") as [ep|]; [|done].
  simpl in Hweb. destruct (Output.field "web" ep) as [web|] eqn:Hf; [|done].
  injection Hweb as <-. unfold property_of in Hid. simpl in Hid.
  destruct (lookup_output _ "myVM" "id") as [id|]; [|done].
  injection Hid as <-. by exists ep, web, id.
Qed.

(** The storage key the script exports is the value of the first key
    that [list_storage_account_keys] lists for the resolved names of the
    resource group and the storage account; it comes back wrapped. *)
Theorem primary_storage_key_resolved {W} keys cfg st plan (exec : @executor W) w
    log w' res :
  Script.main keys cfg = Ok st →
  resolve st plan exec w = (log, w', Ok res) →
  ∃ group account listed ks first key,
    lookup_output (record log []) "resource_group" "name" = Some group ∧
    lookup_output (record log []) "sa" "name" = Some account ∧
    keys [ ("resource_group_name", group); ("account_name", account) ] =
      Some listed ∧
    Output.field "keys" listed = Some ks ∧ Output.item 0 ks = Some first ∧
    Output.field "value" first = Some key ∧
    assoc "primary_storage_key" res = Some (Wrapped key).
Proof.
  intros (spw & _ & Hout)%script_outputs Hres%resolve_Ok_outputs.
  rewrite Hout in Hres. script_entries Hres. clear Hweb Hid Hconn.
  unfold Script.primary_key in Hkey.
  rewrite !subst_apply, subst_all2, !subst_attr in Hkey.
  destruct (lookup_output _ "resource_group" "name") as [group|]; [|done].
  destruct (lookup_output _ "sa" "name") as [account|]; [|done].
  cbn in Hkey.
  destruct (keys _) as [listed|] eqn:Hl; [|done]. cbn in Hkey.
  destruct (Output.field "keys" listed) as [ks|] eqn:Hks; [|done]. cbn in Hkey.
  destruct (Output.item 0 ks) as [first|] eqn:Hfirst; [|done]. cbn in Hkey.
  destruct (Output.field "value" first) as [key|] eqn:Hv; [|done].
  injection Hkey as <-. by exists group, account, listed, ks, first, key.
Qed.

(** When the provider lists no key for any account, resolving the
    script never returns its outputs; once every resource is created and
    the two names are known, the failure is the index out of range under
    [apply]. *)
Theorem no_storage_key_fails {W} keys cfg st plan (exec : @executor W) w log w' r :
  Script.main keys cfg = Ok st →
  (∀ args listed, keys args = Some listed →
                  Output.field "keys" listed = Some (RList [])) →
  resolve st plan exec w = (log, w', r) →
  (∃ e, r = Err e) ∧
  (Forall created log → length log = length plan →
   is_Some (lookup_output (record log []) "resource_group" "name") →
   is_Some (lookup_output (record log []) "sa" "name") →
   r = Err ApplyError).
Proof.
  intros (spw & _ & Hout)%script_outputs Hkeys Hr.
  assert (∀ s, (∃ e, subst s (Output.val (Script.primary_key keys "resource_group" "sa")) = Err e) ∧
    (is_Some (lookup_output s "resource_group" "name") →
     is_Some (lookup_output s "sa" "name") →
     subst s (Output.val (Script.primary_key keys "resource_group" "sa")) =
       Err ApplyError)) as Hfail.
  { intros s. unfold Script.primary_key.
    rewrite !subst_apply, subst_all2, !subst_attr.
    destruct (lookup_output _ "resource_group" "name") as [group|];
      [|split; [by eexists|by intros [? ?]]].
    destruct (lookup_output _ "sa" "name") as [account|];
      [|split; [by eexists|by intros _ [? ?]]].
    cbn. destruct (keys _) as [listed|] eqn:Hl; cbn; [|split; by eauto].
    rewrite (Hkeys _ _ Hl). cbn. split; by eauto. }
  split.
  - destruct r as [res|e]; [|by eexists]. apply resolve_Ok_outputs in Hr.
    rewrite Hout in Hr. script_entries Hr.
    destruct (Hfail (record log [])) as [[e He] _]. congruence.
  - intros Hc Hlen Hg Ha. apply resolve_unfold in Hr as (r0 & Hw & ->).
    rewrite (walk_plan_complete _ _ _ _ _ _ _ Hw Hc Hlen), Hout.
    destruct (Hfail (record log [])) as [_ He].
    match goal with
    | |- Ok ?s ≫= ?g = _ => change (g s = Err ApplyError); cbv beta
    end.
    apply mapM_head_Err. unfold resolve_output. cbn [out_value].
    by rewrite (He Hg Ha).
Qed.



(** ** The theorems above at the sample runs *)

Lemma script_first_missing_witness :
  ∃ early key late,
    ["adminPassword"; "sqlAdminPassword"; "sqlServerName"] = early ++ key :: late ∧
    ConfigMissingError "sqlServerName" = ConfigMissingError key ∧
    Sample.unnamed !! key = None ∧
    Forall (λ k, is_Some (Sample.unnamed !! k)) early.
Proof.
  apply (script_first_missing Sample.list_keys Sample.unnamed).
  vm_compute. reflexivity.
Defined.

Lemma required_settings_used_witness :
  ∃ pw spw srv,
    Sample.config !! "adminPassword" = Some pw ∧
    Sample.config !! "sqlAdminPassword" = Some spw ∧
    Sample.config !! "sqlServerName" = Some srv ∧
    property Sample.declared "myVM" "os_profile" ≫= member "admin_password" =
      Some (Script.str pw) ∧
    property Sample.declared "mySqlServer" "administrator_login_password" =
      Some (Script.str spw) ∧
    property Sample.declared "mySqlServer" "server_name" = Some (Script.str srv).
Proof.
  apply (required_settings_used Sample.list_keys Sample.config Sample.declared).
  vm_compute. reflexivity.
Defined.

Lemma optional_settings_used_witness :
  property Sample.blank_declared "resource_group" "location" =
    Some (Script.str "EastUS") ∧
  property Sample.blank_declared "mySqlServer" "administrator_login" =
    Some (Script.str "dbadmin").
Proof.
  assert (Script.main Sample.list_keys Sample.blank = Ok Sample.blank_declared) as H.
  { vm_compute. reflexivity. }
  split.
  - apply (optional_settings_used Sample.list_keys Sample.blank Sample.blank_declared
             H "azure-native:location" "EastUS" _ ltac:(by left) "").
    vm_compute. reflexivity.
  - apply (optional_settings_used Sample.list_keys Sample.blank Sample.blank_declared
             H "sqlAdminUsername" "sqladminuser" _
             ltac:(by right; right; left) "dbadmin").
    vm_compute. reflexivity.
Defined.

Lemma locations_follow_group_witness :
  res_name (Sample.resource_at 4 (resources Sample.declared)) = "myVNet" ∧
  assoc "location" (res_props (Sample.resource_at 4 (resources Sample.declared))) =
    Some (property_of "resource_group" "location") ∧
  res_name (Sample.resource_at 5 (resources Sample.declared)) = "mySubnet" ∧
  assoc "location" (res_props (Sample.resource_at 5 (resources Sample.declared))) =
    None.
Proof.
  assert (Script.main Sample.list_keys Sample.config = Ok Sample.declared) as H.
  { vm_compute. reflexivity. }
  split_and!; [reflexivity| |reflexivity|].
  - rewrite (locations_follow_group Sample.list_keys Sample.config Sample.declared
               (Sample.resource_at 4 (resources Sample.declared)) H); [reflexivity| |done].
    apply (list_elem_of_lookup_2 _ 4). vm_compute. reflexivity.
  - rewrite (locations_follow_group Sample.list_keys Sample.config Sample.declared
               (Sample.resource_at 5 (resources Sample.declared)) H); [reflexivity| |done].
    apply (list_elem_of_lookup_2 _ 5). vm_compute. reflexivity.
Defined.

Lemma declarations_in_dependency_order_witness :
  NoDup (names (resources Sample.declared)) ∧ closed (resources Sample.declared) ∧
  ordered (resources Sample.declared) ∧
  build_plan Sample.declared = Ok (resources Sample.declared).
Proof.
  apply (declarations_in_dependency_order Sample.list_keys Sample.config).
  vm_compute. reflexivity.
Defined.

Lemma secrecy_sources_witness :
  Output.is_secret (Script.connection_string Sample.config
                      (Output.secret (Output.from_input "sql-pass"))
                      "mySqlServer" "mySqlDatabase") = true ∧
  Output.is_secret (Script.primary_key Sample.list_keys "resource_group" "sa") =
    false ∧
  Output.is_secret
    (Output.secret (Script.primary_key Sample.list_keys "resource_group" "sa")) =
    true.
Proof.
  apply (secrecy_sources Sample.list_keys Sample.config). vm_compute. reflexivity.
Defined.

Lemma script_public_view_witness :
  ∃ endpoints web id,
    lookup_output (record Sample.run.1.1 []) "sa" "primary_endpoints" =
      Some endpoints ∧
    Output.field "web" endpoints = Some web ∧
    lookup_output (record Sample.run.1.1 []) "myVM" "id" = Some id ∧
    public_view (Sample.outputs_of Sample.run.2) =
      [ ("staticEndpoint", web); ("vm_id", id) ].
Proof.
  apply (script_public_view Sample.list_keys Sample.config Sample.declared
           Sample.plan Sample.exec 0 Sample.run.1.1 Sample.run.1.2);
    vm_compute; reflexivity.
Defined.

Lemma primary_storage_key_resolved_witness :
  ∃ group account listed ks first key,
    lookup_output (record Sample.run.1.1 []) "resource_group" "name" = Some group ∧
    lookup_output (record Sample.run.1.1 []) "sa" "name" = Some account ∧
    Sample.list_keys [ ("resource_group_name", group); ("account_name", account) ] =
      Some listed ∧
    Output.field "keys" listed = Some ks ∧ Output.item 0 ks = Some first ∧
    Output.field "value" first = Some key ∧
    assoc "primary_storage_key" (Sample.outputs_of Sample.run.2) =
      Some (Wrapped key).
Proof.
  apply (primary_storage_key_resolved Sample.list_keys Sample.config Sample.declared
           Sample.plan Sample.exec 0 Sample.run.1.1 Sample.run.1.2);
    vm_compute; reflexivity.
Defined.

Lemma no_storage_key_fails_witness :
  length Sample.keyless_run.1.1 = 10 ∧ Sample.keyless_run.2 = Err ApplyError.
Proof.
  split; [reflexivity|].
  apply (no_storage_key_fails Sample.no_keys Sample.config Sample.keyless
           Sample.plan Sample.exec 0 Sample.keyless_run.1.1 Sample.keyless_run.1.2).
  - vm_compute. reflexivity.
  - by intros args listed [= <-].
  - vm_compute. reflexivity.
  - vm_compute. repeat (constructor; [eexists; reflexivity|]). constructor.
  - reflexivity.
  - by eexists.
  - by eexists.
Defined.


